(** * Password-Generator: the generator and the strength scorer

    A shallow embedding of [src/password_generator_v2.py], class
    [PasswordGenerator]: [generate], [generate_multiple],
    [generate_memorable] and [check_strength].

    - A Python [str] is the list of its code points ([ord] of each
      character, in [N]).
    - A Python [int] is a [Z]; [len] and [range] convert explicitly.
    - The [secrets] module is an entropy tape read through a cursor; code
      that draws from it lives in a state-and-exception monad [M]. *)

From Stdlib Require Import ZArith NArith Ascii String DecimalString.
From stdpp Require Import base numbers list.

Local Open Scope Z_scope.

(** ** Python strings *)

Abbreviation str := (list N).

(** A string literal of the source. *)
Definition lit (s : string) : str := N_of_ascii <$> list_ascii_of_string s.
Arguments lit s%_string.

(** [c in s] for a one-character [c]. *)
Definition str_in (c : N) (s : str) : bool := existsb (N.eqb c) s.

(** [len(x)] as a Python integer. *)
Definition len {A} (x : list A) : Z := Z.of_nat (length x).

(** [sep.join(parts)]. *)
Fixpoint join (sep : str) (parts : list str) : str :=
  match parts with
  | [] => []
  | [p] => p
  | p :: rest => p ++ sep ++ join sep rest
  end.

(** [str(n)] for a non-negative integer: its decimal digits. *)
Definition str_of_nat (n : nat) : str := lit (NilZero.string_of_uint (Nat.to_uint n)).

(** ** Character classes

    [str.isupper], [str.islower] and [str.isdigit] consult the Unicode
    character database.  On ASCII they are the three ranges below; what
    the database says beyond ASCII is a parameter of the development. *)

Record unicode_db := {
  db_upper : N → bool;
  db_lower : N → bool;
  db_digit : N → bool
}.

Definition between (lo hi c : N) : bool := ((lo <=? c) && (c <=? hi))%N.

Definition is_ascii (c : N) : bool := (c <? 128)%N.

Definition isupper (U : unicode_db) (c : N) : bool :=
  if is_ascii c then between 65 90 c else db_upper U c.

Definition islower (U : unicode_db) (c : N) : bool :=
  if is_ascii c then between 97 122 c else db_lower U c.

Definition isdigit (U : unicode_db) (c : N) : bool :=
  if is_ascii c then between 48 57 c else db_digit U c.

(** ** The [string] module's constants *)

Module pystring.
Definition ascii_uppercase : str := lit "ABCDEFGHIJKLMNOPQRSTUVWXYZ".
Definition ascii_lowercase : str := lit "abcdefghijklmnopqrstuvwxyz".
Definition digits : str := lit "0123456789".
(** The 32 ASCII punctuation characters, codes 33-47, 58-64, 91-96 and
    123-126; the second one, the double quote, is written by its code. *)
Definition punctuation : str :=
  lit "!" ++ [34%N] ++ lit "#$%&'()*+,-./:;<=>?@[\]^_`{|}~".
End pystring.

(** ** [PasswordGenerator.__init__] *)

Definition uppercase : str := pystring.ascii_uppercase.
Definition lowercase : str := pystring.ascii_lowercase.
Definition digits : str := pystring.digits.
Definition symbols : str := pystring.punctuation.
Definition ambiguous : str := lit "il1Lo0O".

(** ** [check_strength]

    The source threads two locals, [score] and [feedback], through seven
    tests; each test is one step on that pair. *)

Section Scorer.
Variable U : unicode_db.

(** [any(p(c) for c in s)] *)
Definition any (p : N → bool) (s : str) : bool := existsb p s.

(** [if cond: score += 1 / else: feedback.append(msg)] *)
Definition award_or_advise (cond : bool) (msg : string)
    (st : Z * list str) : Z * list str :=
  let '(score, feedback) := st in
  if cond then (score + 1, feedback) else (score, feedback ++ [lit msg]).
Arguments award_or_advise cond msg%_string st.

(** [if cond: score += 1] *)
Definition award (cond : bool) (st : Z * list str) : Z * list str :=
  let '(score, feedback) := st in
  if cond then (score + 1, feedback) else (score, feedback).

Definition check_strength (password : str) : Z * list str :=
  let st := (0, []) in
  let st := award_or_advise (len password >=? 8) "Too short (min 8)" st in
  let st := award (len password >=? 12) st in
  let st := award (len password >=? 16) st in
  let st := award_or_advise (any (isupper U) password) "Add uppercase letters" st in
  let st := award_or_advise (any (islower U) password) "Add lowercase letters" st in
  let st := award_or_advise (any (isdigit U) password) "Add numbers" st in
  let st := award_or_advise (any (λ c, str_in c pystring.punctuation) password)
              "Add symbols" st in
  let '(score, feedback) := st in
  (Z.min score 5, feedback).

(** The scoring table as the specification words it: seven independent
    tests, the raw sum being the number of them that pass. *)
Definition seven_tests (password : str) : list bool :=
  [ Z.leb 8 (len password);
    Z.leb 12 (len password);
    Z.leb 16 (len password);
    any (isupper U) password;
    any (islower U) password;
    any (isdigit U) password;
    any (λ c, str_in c pystring.punctuation) password ].

Definition raw_sum (password : str) : Z :=
  len (filter (λ b, b = true) (seven_tests password)).

End Scorer.

(** ** Exceptions and the entropy source

    [secrets] reads the operating system's entropy pool.  The pool is a
    tape of naturals, unknown and unconstrained; a cursor marks the next
    unread cell.  A raised exception keeps the cursor where it was when
    the exception left. *)

Inductive exn :=
| ValueError (msg : string)
| IndexError (msg : string).
Arguments ValueError msg%_string.
Arguments IndexError msg%_string.

Inductive outcome (A : Type) :=
| Return (a : A)
| Raise (e : exn).
Arguments Return {A} a.
Arguments Raise {A} e.

Record entropy := { tape : nat → nat; cursor : nat }.

Definition advance (s : entropy) : entropy :=
  {| tape := tape s; cursor := S (cursor s) |}.

Definition M (A : Type) : Type := entropy → outcome A * entropy.

Definition ret {A} (a : A) : M A := λ s, (Return a, s).

Definition raise {A} (e : exn) : M A := λ s, (Raise e, s).

Definition bind {A B} (m : M A) (k : A → M B) : M B :=
  λ s,
    match m s with
    | (Return a, s') => k a s'
    | (Raise e, s') => (Raise e, s')
    end.

Notation "'let!' x ':=' m 'in' k" := (bind m (λ x, k))
  (at level 10, x pattern, m at level 100, k at level 200, only parsing).

(** [Random._randbelow(n)], defined for [n > 0]: one cell of the tape,
    reduced to [[0, n)]. *)
Definition _randbelow (n : nat) : M nat :=
  λ s, (Return (tape s (cursor s) mod n)%nat, advance s).

(** [secrets.randbelow(exclusive_upper_bound)] *)
Definition randbelow (exclusive_upper_bound : Z) : M nat :=
  if exclusive_upper_bound <=? 0
  then raise (ValueError "Upper bound must be positive.")
  else _randbelow (Z.to_nat exclusive_upper_bound).

(** [seq[i]] *)
Definition getitem {A} (seq : list A) (i : nat) : M A :=
  match seq !! i with
  | Some x => ret x
  | None => raise (IndexError "list index out of range")
  end.

(** [secrets.choice(seq)] *)
Definition choice {A} (seq : list A) : M A :=
  match seq with
  | [] => raise (IndexError "Cannot choose from an empty sequence")
  | _ => let! i := _randbelow (length seq) in getitem seq i
  end.

(** [[m for _ in range(n)]] *)
Fixpoint repeatM {A} (n : nat) (m : M A) : M (list A) :=
  match n with
  | O => ret []
  | S n' => let! a := m in let! rest := repeatM n' m in ret (a :: rest)
  end.

Definition comprehension {A} (n : Z) (m : M A) : M (list A) :=
  repeatM (Z.to_nat n) m.

(** [for i in items: x = body(x, i)] *)
Fixpoint for_each {A X} (items : list A) (body : X → A → M X) (x : X) : M X :=
  match items with
  | [] => ret x
  | i :: rest => let! x' := body x i in for_each rest body x'
  end.

(** [x[i], x[j] = x[j], x[i]]: both reads, then the store at [i], then
    the store at [j]. *)
Definition exchange {A} (x : list A) (i j : nat) : M (list A) :=
  let! xj := getitem x j in
  let! xi := getitem x i in
  ret (<[j := xi]> (<[i := xj]> x)).

(** [Random.shuffle(x)]:
    [for i in reversed(range(1, len(x))): j = randbelow(i + 1); swap]. *)
Definition shuffle {A} (x : list A) : M (list A) :=
  for_each (rev (seq 1 (length x - 1)))
    (λ x i, let! j := _randbelow (i + 1) in exchange x i j) x.

(** ** [generate] *)

(** [''.join(c for c in s if c not in self.ambiguous)] *)
Definition unambiguous (s : str) : str :=
  List.filter (λ c, negb (str_in c ambiguous)) s.

(** The body of [generate] is four [if use_...:] blocks that update the
    locals [chars] and [required], then the tail from [if not chars:] on.
    Each block is one step on the pair [(chars, required)]. *)

(** Lines 60-65. *)
Definition upper_block (use_upper exclude_ambiguous : bool) (st : str * str)
    : M (str * str) :=
  let '(chars, required) := st in
  if use_upper then
    let chars := chars ++ uppercase in
    let chars := if exclude_ambiguous then unambiguous chars else chars in
    let! c := choice (if exclude_ambiguous then unambiguous uppercase else uppercase) in
    ret (chars, required ++ [c])
  else ret (chars, required).

(** Lines 67-72. *)
Definition lower_block (use_lower exclude_ambiguous : bool) (st : str * str)
    : M (str * str) :=
  let '(chars, required) := st in
  if use_lower then
    let lower_chars := lowercase in
    let lower_chars :=
      if exclude_ambiguous then unambiguous lower_chars else lower_chars in
    let chars := chars ++ lower_chars in
    let! c := choice lower_chars in
    ret (chars, required ++ [c])
  else ret (chars, required).

(** Lines 74-79. *)
Definition digits_block (use_digits exclude_ambiguous : bool) (st : str * str)
    : M (str * str) :=
  let '(chars, required) := st in
  if use_digits then
    let digit_chars := digits in
    let digit_chars :=
      if exclude_ambiguous then unambiguous digit_chars else digit_chars in
    let chars := chars ++ digit_chars in
    let! c := choice digit_chars in
    ret (chars, required ++ [c])
  else ret (chars, required).

(** Lines 81-83: the symbols are never filtered. *)
Definition symbols_block (use_symbols : bool) (st : str * str) : M (str * str) :=
  let '(chars, required) := st in
  if use_symbols then
    let chars := chars ++ symbols in
    let! c := choice symbols in
    ret (chars, required ++ [c])
  else ret (chars, required).

(** Lines 85-99. *)
Definition assemble (length : Z) (st : str * str) : M str :=
  let '(chars, required) := st in
  match chars with
  | [] => raise (ValueError "At least one character type must be selected")
  | _ =>
    let length := if length <? len required then len required else length in
    let password := required in
    let! filler := comprehension (length - len required) (choice chars) in
    let password := password ++ filler in
    let! password := shuffle password in
    ret password
  end.

Definition generate (length : Z)
    (use_upper use_lower use_digits use_symbols exclude_ambiguous : bool) : M str :=
  let! st := upper_block use_upper exclude_ambiguous ([], []) in
  let! st := lower_block use_lower exclude_ambiguous st in
  let! st := digits_block use_digits exclude_ambiguous st in
  let! st := symbols_block use_symbols st in
  assemble length st.

(** ** [generate_multiple] *)

Definition generate_multiple (count : Z) (length : Z)
    (use_upper use_lower use_digits use_symbols exclude_ambiguous : bool)
    : M (list str) :=
  comprehension count
    (generate length use_upper use_lower use_digits use_symbols exclude_ambiguous).

(** ** [generate_memorable] *)

Definition word_list : list str :=
  [ lit "alpha"; lit "bravo"; lit "charlie"; lit "delta"; lit "echo"; lit "foxtrot";
    lit "golf"; lit "hotel"; lit "india"; lit "juliet"; lit "kilo"; lit "lima";
    lit "mike"; lit "november"; lit "oscar"; lit "papa"; lit "quebec"; lit "romeo";
    lit "sierra"; lit "tango"; lit "uniform"; lit "victor"; lit "whiskey"; lit "xray";
    lit "yankee"; lit "zulu"; lit "coffee"; lit "python"; lit "tiger"; lit "ocean";
    lit "mountain"; lit "river"; lit "forest"; lit "desert"; lit "cloud"; lit "thunder";
    lit "lightning"; lit "rainbow"; lit "sunset"; lit "sunrise"; lit "winter"; lit "summer" ].

(** [str.upper] and [str.lower] on one ASCII character; the word list is
    ASCII, and characters beyond ASCII are left alone here. *)
Definition ascii_upper (c : N) : N := if between 97 122 c then (c - 32)%N else c.
Definition ascii_lower (c : N) : N := if between 65 90 c then (c + 32)%N else c.

(** [w.capitalize()]: first character upper-cased, the rest lower-cased. *)
Definition capitalize (w : str) : str :=
  match w with
  | [] => []
  | c :: rest => ascii_upper c :: (ascii_lower <$> rest)
  end.

Definition generate_memorable (words : Z) (separator : str)
    (capitalize_ add_number : bool) : M str :=
  let! selected := comprehension words (choice word_list) in
  let selected := if capitalize_ then capitalize <$> selected else selected in
  let passphrase := join separator selected in
  if add_number then
    let! n := randbelow 100 in
    ret (passphrase ++ str_of_nat n)
  else ret passphrase.

(** ** The specification's vocabulary *)

Inductive category := Upper | Lower | Digit | Symbol.

Definition base_set (cat : category) : str :=
  match cat with
  | Upper => uppercase
  | Lower => lowercase
  | Digit => digits
  | Symbol => symbols
  end.

(** Membership in a category's effective set: the base set, minus the
    ambiguous characters when they are excluded. *)
Definition effective (exclude_ambiguous : bool) (cat : category) (c : N) : Prop :=
  c ∈ base_set cat ∧ (exclude_ambiguous = true → c ∉ ambiguous).

Definition enabled_categories (use_upper use_lower use_digits use_symbols : bool)
    : list category :=
  (if use_upper then [Upper] else []) ++ (if use_lower then [Lower] else []) ++
  (if use_digits then [Digit] else []) ++ (if use_symbols then [Symbol] else []).

(** The two invariants of a generated password. *)
Definition length_invariant (requested : Z) (cats : list category) (pw : str) : Prop :=
  len pw = Z.max requested (len cats).

Definition inclusion_invariant (exclude_ambiguous : bool) (cats : list category)
    (pw : str) : Prop :=
  ∀ cat, cat ∈ cats → ∃ c, c ∈ pw ∧ effective exclude_ambiguous cat c.

(** ** Definitions used by the proofs *)

(** [returns m s Q]: run from [s], [m] returns a value (it does not
    raise) and leaves an entropy state, and the two satisfy [Q]. *)
Definition returns {A} (m : M A) (s : entropy) (Q : A → entropy → Prop) : Prop :=
  match m s with
  | (Return a, s') => Q a s'
  | (Raise _, _) => False
  end.

(** The list a category's required character is drawn from is its
    effective set.  For the symbols the source draws from the unfiltered
    set, which holds no ambiguous character. *)
Definition drawn_from (exclude_ambiguous : bool) (cat : category) : str :=
  match cat with
  | Symbol => symbols
  | _ => if exclude_ambiguous then unambiguous (base_set cat) else base_set cat
  end.

(** The invariant of the four blocks on [(chars, required)], for the
    categories [cats] enabled so far: [required] holds one character of
    each, in order; [chars] draws on their effective sets only, and is
    non-empty as soon as one category is enabled. *)
Record block_inv (ea : bool) (cats : list category) (st : str * str) : Prop := {
  inv_required : Forall2 (effective ea) cats st.2;
  inv_chars : ∀ c, c ∈ st.1 → ∃ cat, cat ∈ cats ∧ effective ea cat c;
  inv_nonempty : cats ≠ [] → st.1 ≠ []
}.

(** What the tail of [generate] returns: a permutation of the required
    characters followed by the filler, the filler making up the length
    and drawn from the enabled categories' effective sets. *)
Definition generated (n : Z) (ea : bool) (cats : list category) (pw : str) : Prop :=
  ∃ required filler,
    pw ≡ₚ required ++ filler ∧
    Forall2 (effective ea) cats required ∧
    len filler = Z.max n (len cats) - len cats ∧
    Forall (λ c, ∃ cat, cat ∈ cats ∧ effective ea cat c) filler.

(** The entropy state after [k] more cells are read, and those cells. *)
Definition skip (k : nat) (s : entropy) : entropy :=
  {| tape := tape s; cursor := cursor s + k |}.

Definition cells (k : nat) (s : entropy) : list nat :=
  (λ i, tape s (cursor s + i)%nat) <$> seq 0 k.

(** The entry of the word list that a cell selects. *)
Definition word_at (r : nat) : str := nth (r mod length word_list) word_list [].

(** An entropy state whose unread cells start with [rs]. *)
Definition entropy_of (rs : list nat) : entropy :=
  {| tape := λ k, nth k rs 0%nat; cursor := 0 |}.

(** [Word] of the pattern: an ASCII capital, then ASCII lower-case letters. *)
Definition is_capitalized (w : str) : bool :=
  match w with
  | [] => false
  | c :: rest => between 65 90 c && forallb (between 97 122) rest
  end.

(** The value of a string of decimal digits, and the test that it is one
    (one or two digits, as a number below 100 needs). *)
Definition digits_value (d : str) : nat :=
  foldl (λ acc c, (10 * acc + (N.to_nat c - 48))%nat) 0%nat d.

Definition is_short_decimal (d : str) : bool :=
  forallb (between 48 57) d && (1 <=? len d) && (len d <=? 2).

(** A character database that knows no upper-case letter, lower-case
    letter or digit beyond ASCII. *)
Definition ascii_only : unicode_db :=
  {| db_upper := λ _, false; db_lower := λ _, false; db_digit := λ _, false |}.

(** An entropy state to run the generator on. *)
Definition sample_entropy : entropy :=
  {| tape := λ k, (7 * k * k + 3 * k + 11)%nat; cursor := 0 |}.

(** ** [src/Password_Generator.py]: the first version

    [generate_password] draws from [random], whose generator is read
    here as the same kind of tape. *)

Module Password_Generator.

Definition ascii_letters : str := pystring.ascii_lowercase ++ pystring.ascii_uppercase.

Definition generate_password (length : Z) : M str :=
  let characters := ascii_letters ++ pystring.digits ++ pystring.punctuation in
  let! password := comprehension length (choice characters) in
  ret password.

End Password_Generator.

(** The five messages of [check_strength], in the order of its tests. *)
Definition messages : list str :=
  [ lit "Too short (min 8)"; lit "Add uppercase letters"; lit "Add lowercase letters";
    lit "Add numbers"; lit "Add symbols" ].

(** How many characters of a string lie in a category's base set. *)
Definition count_in (cat : category) (pw : str) : nat :=
  length (filter (λ c, c ∈ base_set cat) pw).

#[global] Instance category_eq_dec : EqDecision category.
Proof. solve_decision. Defined.

(** The category of an ASCII character, by its code: the ranges of the
    four base sets. *)
Definition classify (c : N) : option category :=
  if between 65 90 c then Some Upper
  else if between 97 122 c then Some Lower
  else if between 48 57 c then Some Digit
  else if between 33 47 c || between 58 64 c || between 91 96 c || between 123 126 c
  then Some Symbol
  else None.

(** ** The console: [display_strength] and [main]

    [Fore] and [Style] are colorama's constants, or the empty strings of
    lines 25-28 when colorama is missing. *)

Record colors := {
  Fore_RED : str;
  Fore_GREEN : str;
  Fore_YELLOW : str;
  Fore_CYAN : str;
  Fore_MAGENTA : str;
  Style_RESET_ALL : str
}.

(** Lines 25-28. *)
Definition no_colors : colors :=
  {| Fore_RED := []; Fore_GREEN := []; Fore_YELLOW := []; Fore_CYAN := [];
     Fore_MAGENTA := []; Style_RESET_ALL := [] |}.

(** The process: the entropy source, the arguments of the [print] calls
    so far, the clipboard, and the exception [pyperclip.copy] raises when
    the system has no clipboard ([None] when it has one).  The only
    handler on that exception's way is a bare [except:], so which
    exception it is plays no role. *)
Record world := {
  rng : entropy;
  stdout : list str;
  clipboard : option str;
  clipboard_fault : option exn
}.

Definition IO (A : Type) : Type := world → outcome A * world.

Definition io_ret {A} (a : A) : IO A := λ w, (Return a, w).

Definition io_raise {A} (e : exn) : IO A := λ w, (Raise e, w).

Definition io_bind {A B} (m : IO A) (k : A → IO B) : IO B :=
  λ w,
    match m w with
    | (Return a, w') => k a w'
    | (Raise e, w') => (Raise e, w')
    end.

Notation "'do!' x ':=' m 'in' k" := (io_bind m (λ x, k))
  (at level 10, x pattern, m at level 100, k at level 200, only parsing).
Notation "m ';;' k" := (io_bind m (λ _, k))
  (at level 100, k at level 200, right associativity, only parsing).

(** A computation of the generator, run on the process's entropy. *)
Definition lift {A} (m : M A) : IO A :=
  λ w,
    let '(r, s') := m (rng w) in
    (r, {| rng := s'; stdout := stdout w; clipboard := clipboard w;
           clipboard_fault := clipboard_fault w |}).

(** [print(text)] *)
Definition print (text : str) : IO unit :=
  λ w, (Return (), {| rng := rng w; stdout := stdout w ++ [text];
                      clipboard := clipboard w; clipboard_fault := clipboard_fault w |}).

(** [pyperclip.copy(text)] *)
Definition pyperclip_copy (text : str) : IO unit :=
  λ w,
    match clipboard_fault w with
    | Some e => (Raise e, w)
    | None => (Return (), {| rng := rng w; stdout := stdout w; clipboard := Some text;
                             clipboard_fault := clipboard_fault w |})
    end.

(** [try: body / except: pass] *)
Definition try_except_pass (body : IO unit) : IO unit :=
  λ w,
    match body w with
    | (Raise _, w') => (Return (), w')
    | (Return _, w') => (Return (), w')
    end.

(** [for x in items: body(x)] *)
Fixpoint io_for_each {A} (items : list A) (body : A → IO unit) : IO unit :=
  match items with
  | [] => io_ret ()
  | x :: rest => body x ;; io_for_each rest body
  end.

(** [seq[i]] for an integer index: a negative one counts from the end. *)
Definition getitem_int {A} (seq : list A) (i : Z) : IO A :=
  let j := if i <? 0 then i + len seq else i in
  if j <? 0 then io_raise (IndexError "list index out of range")
  else match seq !! Z.to_nat j with
       | Some x => io_ret x
       | None => io_raise (IndexError "list index out of range")
       end.

(** [s * n] *)
Definition str_mul (s : str) (n : Z) : str := concat (replicate (Z.to_nat n) s).

(** [str(i)] *)
Definition str_of_int (i : Z) : str :=
  if i <? 0 then lit "-" ++ str_of_nat (Z.to_nat (- i)) else str_of_nat (Z.to_nat i).

(** [f"{i:2}"]: right-aligned in two columns. *)
Definition format_2 (i : Z) : str :=
  replicate (2 - length (str_of_int i)) 32%N ++ str_of_int i.

(** [enumerate(items, start)] *)
Definition enumerate {A} (items : list A) (start : Z) : list (Z * A) :=
  zip (seqZ start (len items)) items.

(** The characters of the source that are not ASCII, and the newline. *)
Definition newline : str := [10%N].
Definition full_block : str := [9608%N].
Definition light_shade : str := [9617%N].
Definition bullet : str := [8226%N].
Definition check_mark : str := [10003%N].

(** What [parser.parse_args()] returns. *)
Record Namespace := {
  args_length : Z;
  args_multiple : Z;
  args_no_upper : bool;
  args_no_lower : bool;
  args_no_digits : bool;
  args_no_symbols : bool;
  args_include_ambiguous : bool;
  args_memorable : bool;
  args_words : Z;
  args_analyze : option str;
  args_copy : bool;
  args_interactive : bool
}.

Section Console.
Variable U : unicode_db.
Variable C : colors.
(** The module's flag: whether [pyperclip] could be imported. *)
Variable CLIPBOARD : bool.
(** [interactive_mode], the menu loop, is not modelled. *)
Variable interactive_mode : IO unit.

Definition labels : list (str * str) :=
  [ (lit "Very Weak", Fore_RED C);
    (lit "Weak", Fore_RED C);
    (lit "Fair", Fore_YELLOW C);
    (lit "Good", Fore_YELLOW C);
    (lit "Strong", Fore_GREEN C);
    (lit "Very Strong", Fore_GREEN C) ].

Definition display_strength (password : str) : IO unit :=
  let '(score, feedback) := check_strength U password in
  do! (label, color) := getitem_int labels score in
  let bars := str_mul full_block score ++ str_mul light_shade (5 - score) in
  print (newline ++ Fore_CYAN C ++ lit "Strength Analysis:" ++ Style_RESET_ALL C) ;;
  print (lit "  " ++ color ++ bars ++ lit " " ++ label ++ Style_RESET_ALL C) ;;
  print (lit "  Length: " ++ str_of_int (len password) ++ lit " characters") ;;
  match feedback with
  | [] => io_ret ()
  | _ =>
    print (newline ++ Fore_YELLOW C ++ lit "Suggestions:" ++ Style_RESET_ALL C) ;;
    io_for_each feedback (λ tip, print (lit "  " ++ bullet ++ lit " " ++ tip))
  end.

(** [if args.copy and CLIPBOARD: try: copy, print / except: pass] *)
Definition copy_if_asked (args : Namespace) (password : str) : IO unit :=
  if args_copy args && CLIPBOARD then
    try_except_pass
      (pyperclip_copy password ;;
       print (newline ++ Fore_GREEN C ++ check_mark ++ lit " Copied to clipboard"
              ++ Style_RESET_ALL C))
  else io_ret ().

(** [main], from the parsed arguments on; [argc] is [len(sys.argv)]. *)
Definition main (args : Namespace) (argc : Z) : IO unit :=
  if args_interactive args || (argc =? 1) then interactive_mode
  else
    match args_analyze args with
    | Some (c :: analyze) =>
      print (Fore_CYAN C ++ lit "Analyzing password..." ++ Style_RESET_ALL C) ;;
      display_strength (c :: analyze)
    | _ =>
      if args_memorable args then
        let words := Z.max 3 (Z.min 8 (args_words args)) in
        do! password := lift (generate_memorable words (lit "-") true true) in
        print (Fore_GREEN C ++ lit "Passphrase: " ++ Fore_YELLOW C ++ password
               ++ Style_RESET_ALL C) ;;
        display_strength password ;;
        copy_if_asked args password
      else
        let length := Z.max 8 (Z.min 64 (args_length args)) in
        let count := Z.max 1 (Z.min 20 (args_multiple args)) in
        if count =? 1 then
          do! password :=
            lift (generate length (negb (args_no_upper args)) (negb (args_no_lower args))
                    (negb (args_no_digits args)) (negb (args_no_symbols args))
                    (negb (args_include_ambiguous args))) in
          print (Fore_GREEN C ++ lit "Password: " ++ Fore_YELLOW C ++ password
                 ++ Style_RESET_ALL C) ;;
          display_strength password ;;
          copy_if_asked args password
        else
          do! passwords :=
            lift (generate_multiple count length
                    (negb (args_no_upper args)) (negb (args_no_lower args))
                    (negb (args_no_digits args)) (negb (args_no_symbols args))
                    (negb (args_include_ambiguous args))) in
          print (Fore_GREEN C ++ lit "Generated " ++ str_of_int count ++ lit " passwords:"
                 ++ Style_RESET_ALL C ++ newline) ;;
          io_for_each (enumerate passwords 1)
            (λ '(i, pw), print (format_2 i ++ lit ". " ++ pw))
    end.

End Console.

(** ** Definitions used by the proofs about the console *)

(** The world after more lines are printed, after the generator has
    moved the entropy on, and after a text is copied. *)
Definition add_output (lines : list str) (w : world) : world :=
  {| rng := rng w; stdout := stdout w ++ lines; clipboard := clipboard w;
     clipboard_fault := clipboard_fault w |}.

Definition with_rng (s : entropy) (w : world) : world :=
  {| rng := s; stdout := stdout w; clipboard := clipboard w;
     clipboard_fault := clipboard_fault w |}.


(** The bar of [display_strength]. *)
Definition bars (score : Z) : str :=
  str_mul full_block score ++ str_mul light_shade (5 - score).




(** Whether [args.analyze] is a non-empty string. *)
Definition analyze_given (args : Namespace) : bool :=
  match args_analyze args with
  | Some (_ :: _) => true
  | _ => false
  end.

(** The modes [main] tries before it generates passwords. *)
Definition other_mode (args : Namespace) (argc : Z) : bool :=
  args_interactive args || (argc =? 1) || analyze_given args.

(** Arguments and a world to run [main] on: length 10, copy asked,
    the four [--no-...] flags all set or all clear. *)
Definition sample_args (multiple : Z) (no_category memorable : bool)
    (analyze : option str) : Namespace :=
  {| args_length := 10; args_multiple := multiple;
     args_no_upper := no_category; args_no_lower := no_category;
     args_no_digits := no_category; args_no_symbols := no_category;
     args_include_ambiguous := false; args_memorable := memorable; args_words := 1;
     args_analyze := analyze; args_copy := true; args_interactive := false |}.

Definition sample_world : world :=
  {| rng := sample_entropy; stdout := []; clipboard := None;
     clipboard_fault := Some (ValueError "no clipboard") |}.

(** The arguments with [args.analyze] replaced. *)
Definition with_analyze (analyze : option str) (args : Namespace) : Namespace :=
  {| args_length := args_length args; args_multiple := args_multiple args;
     args_no_upper := args_no_upper args; args_no_lower := args_no_lower args;
     args_no_digits := args_no_digits args; args_no_symbols := args_no_symbols args;
     args_include_ambiguous := args_include_ambiguous args;
     args_memorable := args_memorable args; args_words := args_words args;
     args_analyze := analyze; args_copy := args_copy args;
     args_interactive := args_interactive args |}.

(** ** A program logic for [M] *)

Section Logic.
Implicit Types s : entropy.

Lemma returns_ret {A} (a : A) s Q : Q a s → returns (ret a) s Q.
Proof. done. Qed.

Lemma returns_bind {A B} (m : M A) (k : A → M B) s Q :
  returns m s (λ a s', returns (k a) s' Q) → returns (bind m k) s Q.
Proof. unfold returns, bind. by destruct (m s) as [[a|e] s']. Qed.

Lemma returns_mono {A} (m : M A) s (Q Q' : A → entropy → Prop) :
  returns m s Q → (∀ a s', Q a s' → Q' a s') → returns m s Q'.
Proof. unfold returns. destruct (m s) as [[a|e] s']; [auto | done]. Qed.

Lemma returns_inv {A} (m : M A) s Q :
  returns m s Q → ∃ a s', m s = (Return a, s') ∧ Q a s'.
Proof. unfold returns. destruct (m s) as [[a|e] s']; [eauto | done]. Qed.

Lemma returns_randbelow_ (n : nat) s (Q : nat → entropy → Prop) :
  (0 < n)%nat → (∀ i, (i < n)%nat → Q i (advance s)) → returns (_randbelow n) s Q.
Proof. intros Hn HQ. apply HQ, Nat.mod_upper_bound. lia. Qed.

Lemma returns_getitem {A} (x : list A) i a s Q :
  x !! i = Some a → Q a s → returns (getitem x i) s Q.
Proof. unfold returns, getitem. by intros ->. Qed.

Lemma returns_choice {A} (x : list A) s (Q : A → entropy → Prop) :
  x ≠ [] → (∀ a, a ∈ x → Q a (advance s)) → returns (choice x) s Q.
Proof.
  intros Hne HQ. destruct x as [|a0 x']; [done|].
  apply returns_bind, returns_randbelow_; [simpl; lia|].
  intros i Hi. destruct (lookup_lt_is_Some_2 _ _ Hi) as [a Ha].
  eapply returns_getitem; [done|]. apply HQ. by eapply list_elem_of_lookup_2.
Qed.

Lemma returns_repeatM {A} (m : M A) (P : A → Prop) n s :
  (∀ s', returns m s' (λ a _, P a)) →
  returns (repeatM n m) s (λ l _, length l = n ∧ Forall P l).
Proof.
  intros Hm. revert s. induction n as [|n IH]; intros s; simpl.
  - by apply returns_ret.
  - apply returns_bind. eapply returns_mono; [apply Hm|].
    intros a s1 Ha. simpl. apply returns_bind.
    eapply returns_mono; [apply IH|].
    intros l s2 [Hl HP]. apply returns_ret. split; [simpl; lia | by constructor].
Qed.

Lemma returns_for_each {A B} (I : B → Prop) (items : list A) (body : B → A → M B) b s :
  (∀ b' i s', I b' → i ∈ items → returns (body b' i) s' (λ b'' _, I b'')) →
  I b → returns (for_each items body b) s (λ b' _, I b').
Proof.
  revert b s. induction items as [|i items IH]; intros b s Hbody Hb; simpl.
  - by apply returns_ret.
  - apply returns_bind. eapply returns_mono; [apply Hbody; [done | left]|].
    intros b' s' Hb'. simpl. apply IH; [|done].
    intros ? ? ? ? ?. apply Hbody; [done | by right].
Qed.

Lemma returns_exchange {A} (x : list A) i j s :
  (i < length x)%nat → (j < length x)%nat →
  returns (exchange x i j) s (λ x' _, x' ≡ₚ x).
Proof.
  intros Hi Hj.
  destruct (lookup_lt_is_Some_2 _ _ Hi) as [xi Hxi].
  destruct (lookup_lt_is_Some_2 _ _ Hj) as [xj Hxj].
  unfold exchange. apply returns_bind.
  eapply returns_getitem; [done|]. apply returns_bind.
  eapply returns_getitem; [done|]. apply returns_ret.
  by apply Permutation_insert_swap.
Qed.

(** Fisher-Yates returns a permutation of its argument. *)
Lemma returns_shuffle {A} (x : list A) s : returns (shuffle x) s (λ x' _, x' ≡ₚ x).
Proof.
  unfold shuffle. apply (returns_for_each (λ x', x' ≡ₚ x)); [|done].
  intros x' i s' Hperm Hi.
  apply list_elem_of_In, in_rev, in_seq in Hi.
  pose proof (Permutation_length Hperm) as Hlen.
  apply returns_bind, returns_randbelow_; [lia|].
  intros j Hj. eapply returns_mono; [apply returns_exchange; lia|].
  simpl. intros x'' _ Hx. by rewrite Hx.
Qed.

End Logic.

(** ** What [generate] establishes *)

Lemma str_in_spec (c : N) (s : str) : str_in c s = true ↔ c ∈ s.
Proof.
  unfold str_in. rewrite existsb_exists, list_elem_of_In. split.
  - by intros (y & Hy & ->%N.eqb_eq).
  - intros Hc. exists c. by rewrite N.eqb_refl.
Qed.

Lemma elem_of_unambiguous (c : N) (s : str) :
  c ∈ unambiguous s ↔ c ∈ s ∧ c ∉ ambiguous.
Proof.
  unfold unambiguous.
  rewrite !list_elem_of_In, filter_In, negb_true_iff, <-not_true_iff_false.
  by rewrite str_in_spec, list_elem_of_In.
Qed.

Lemma symbols_unambiguous : unambiguous symbols = symbols.
Proof. reflexivity. Qed.

Lemma elem_of_symbols_unambiguous c : c ∈ symbols → c ∉ ambiguous.
Proof. rewrite <-symbols_unambiguous at 1. by intros [_ ?]%elem_of_unambiguous. Qed.

Lemma drawn_from_effective ea cat c : c ∈ drawn_from ea cat ↔ effective ea cat c.
Proof.
  unfold effective, drawn_from.
  destruct cat, ea; cbn [base_set]; rewrite ?elem_of_unambiguous;
    try (pose proof (elem_of_symbols_unambiguous c)); intuition congruence.
Qed.

Lemma drawn_from_nonempty ea cat : drawn_from ea cat ≠ [].
Proof. destruct ea, cat; vm_compute; discriminate. Qed.

Lemma block_inv_init ea : block_inv ea [] ([], []).
Proof. split; simpl; [constructor | by intros c ?%elem_of_nil | done]. Qed.

Lemma block_inv_skip ea cats st : block_inv ea cats st → block_inv ea (cats ++ []) st.
Proof. by rewrite app_nil_r. Qed.

Lemma block_inv_extend ea cats cat chars required chars' c :
  block_inv ea cats (chars, required) →
  (∀ x, x ∈ chars' → x ∈ chars ∨ x ∈ drawn_from ea cat) →
  (∀ x, x ∈ drawn_from ea cat → x ∈ chars') →
  c ∈ drawn_from ea cat →
  block_inv ea (cats ++ [cat]) (chars', required ++ [c]).
Proof.
  intros [Hreq Hchars _] Hsub Hsup Hc. split; simpl in *.
  - apply Forall2_app; [done|]. constructor; [|constructor].
    by apply drawn_from_effective.
  - intros x [Hx|Hx]%Hsub.
    + destruct (Hchars x Hx) as (cat' & ? & ?). exists cat'.
      split; [apply elem_of_app; by left | done].
    + exists cat. split; [apply elem_of_app; right; left | by apply drawn_from_effective].
  - intros _ ->. by apply Hsup, elem_of_nil in Hc.
Qed.

Section Blocks.
Variables (ea : bool) (cats : list category) (st : str * str) (s : entropy).
Hypothesis Hinv : block_inv ea cats st.

(** Membership goals over [++] and [unambiguous], the character sets
    kept folded. *)
Local Ltac membership :=
  intros ?; destruct ea; cbn [drawn_from base_set];
  repeat (rewrite elem_of_app || rewrite elem_of_unambiguous); tauto.

Local Ltac block cat :=
  apply returns_bind, returns_choice; [apply (drawn_from_nonempty ea cat)|];
  intros c Hc; apply returns_ret;
  eapply block_inv_extend; [exact Hinv | | | exact Hc]; membership.

Lemma returns_upper_block uu :
  returns (upper_block uu ea st) s
    (λ st' _, block_inv ea (cats ++ if uu then [Upper] else []) st').
Proof using Hinv.
  unfold upper_block. destruct st as [chars required], uu;
    [block Upper | by apply returns_ret, block_inv_skip].
Qed.

Lemma returns_lower_block ul :
  returns (lower_block ul ea st) s
    (λ st' _, block_inv ea (cats ++ if ul then [Lower] else []) st').
Proof using Hinv.
  unfold lower_block. destruct st as [chars required], ul;
    [block Lower | by apply returns_ret, block_inv_skip].
Qed.

Lemma returns_digits_block ud :
  returns (digits_block ud ea st) s
    (λ st' _, block_inv ea (cats ++ if ud then [Digit] else []) st').
Proof using Hinv.
  unfold digits_block. destruct st as [chars required], ud;
    [block Digit | by apply returns_ret, block_inv_skip].
Qed.

Lemma returns_symbols_block us :
  returns (symbols_block us st) s
    (λ st' _, block_inv ea (cats ++ if us then [Symbol] else []) st').
Proof using Hinv.
  unfold symbols_block. destruct st as [chars required], us;
    [block Symbol | by apply returns_ret, block_inv_skip].
Qed.

End Blocks.

Lemma returns_assemble n ea cats st s :
  cats ≠ [] → block_inv ea cats st →
  returns (assemble n st) s (λ pw _, generated n ea cats pw).
Proof.
  destruct st as [chars required]. intros Hne [Hreq Hchars Hnonempty].
  cbn [fst snd] in *. specialize (Hnonempty Hne).
  unfold assemble. destruct chars as [|c0 chars'] eqn:Echars; [done|].
  rewrite <-Echars in *. clear Echars c0 chars'.
  apply returns_bind. unfold comprehension.
  eapply returns_mono; [apply (returns_repeatM _ (λ c, c ∈ chars))|].
  { intros s'. by apply returns_choice. }
  cbv beta. intros filler s1 [Hlen Hfiller].
  apply returns_bind. eapply returns_mono; [apply returns_shuffle|].
  cbv beta. intros pw s2 Hperm. apply returns_ret.
  exists required, filler. split_and!; [done | done | |].
  - apply Forall2_length in Hreq. unfold len in *.
    destruct (Z.ltb_spec n (Z.of_nat (length required))); lia.
  - eapply Forall_impl; [exact Hfiller | exact Hchars].
Qed.

Lemma len_enabled_categories uu ul ud us :
  len (enabled_categories uu ul ud us) = Z.b2z uu + Z.b2z ul + Z.b2z ud + Z.b2z us.
Proof. by destruct uu, ul, ud, us. Qed.

Lemma enabled_categories_nonempty uu ul ud us :
  uu || ul || ud || us = true → enabled_categories uu ul ud us ≠ [].
Proof. by destruct uu, ul, ud, us. Qed.

Lemma returns_generate n uu ul ud us ea s :
  uu || ul || ud || us = true →
  returns (generate n uu ul ud us ea) s
    (λ pw _, generated n ea (enabled_categories uu ul ud us) pw).
Proof.
  intros Hen%enabled_categories_nonempty. unfold generate.
  apply returns_bind. eapply returns_mono;
    [apply returns_upper_block, block_inv_init|]. cbv beta. intros st1 s1 H1.
  apply returns_bind. eapply returns_mono;
    [apply returns_lower_block, H1|]. cbv beta. intros st2 s2 H2.
  apply returns_bind. eapply returns_mono;
    [apply returns_digits_block, H2|]. cbv beta. intros st3 s3 H3.
  apply returns_bind. eapply returns_mono;
    [apply returns_symbols_block, H3|]. cbv beta. intros st4 s4 H4.
  rewrite <-!app_assoc in H4. by apply returns_assemble.
Qed.

(** The three properties of a generated password. *)

Lemma generated_length n ea cats pw :
  generated n ea cats pw → length_invariant n cats pw.
Proof.
  intros (required & filler & Hperm & Hreq & Hlen & _).
  apply Permutation_length in Hperm. apply Forall2_length in Hreq.
  unfold length_invariant, len in *. rewrite length_app in Hperm. lia.
Qed.

Lemma generated_inclusion n ea cats pw :
  generated n ea cats pw → inclusion_invariant ea cats pw.
Proof.
  intros (required & filler & Hperm & Hreq & _) cat Hcat.
  apply list_elem_of_lookup in Hcat as [i Hi].
  destruct (Forall2_lookup_l _ _ _ _ _ Hreq Hi) as (c & Hc & Heff).
  exists c. split; [|done]. rewrite Hperm. apply elem_of_app. left.
  by eapply list_elem_of_lookup_2.
Qed.

Lemma generated_unambiguous n cats pw :
  generated n true cats pw → Forall (λ c, c ∉ ambiguous) pw.
Proof.
  intros (required & filler & Hperm & Hreq & _ & Hfiller).
  rewrite Hperm. apply Forall_app. split.
  - apply Forall_forall. intros c [i Hi]%list_elem_of_lookup.
    destruct (Forall2_lookup_r _ _ _ _ _ Hreq Hi) as (cat & _ & [_ Hc]). auto.
  - eapply Forall_impl; [exact Hfiller|]. intros c (cat & _ & [_ Hc]). auto.
Qed.

Example generate_16 :
  (generate 16 true true true true true sample_entropy).1
  = Return (lit "WyyRkd7M+d3>3{MX").
Proof. vm_compute. reflexivity. Qed.

Example generate_short :
  (generate (-3) true false true true true sample_entropy).1 = Return (lit "M7.").
Proof. vm_compute. reflexivity. Qed.

(** ** Theorems *)

(** C1. For every configuration with at least one enabled category and
    every entropy state, [generate] returns a password whose length is
    exactly the larger of the requested length and the number of enabled
    categories. *)
Theorem generate_length n uu ul ud us ea s :
  uu || ul || ud || us = true →
  ∃ pw s', generate n uu ul ud us ea s = (Return pw, s') ∧
    len pw = Z.max n (len (enabled_categories uu ul ud us)).
Proof.
  intros Hen. destruct (returns_inv _ _ _ (returns_generate n _ _ _ _ ea s Hen))
    as (pw & s' & Hrun & Hgen).
  exists pw, s'. split; [done|]. by eapply generated_length.
Qed.

Lemma generate_length_witness :
  ∃ pw s', generate 6 true false true false true sample_entropy = (Return pw, s') ∧
    len pw = Z.max 6 (len (enabled_categories true false true false)).
Proof. apply (generate_length 6 true false true false true sample_entropy). reflexivity. Defined.

(** C2. For every configuration with at least one enabled category,
    whatever the requested length, the password [generate] returns holds
    at least one character of the effective set of each enabled
    category. *)
Theorem generate_inclusion n uu ul ud us ea s :
  uu || ul || ud || us = true →
  ∃ pw s', generate n uu ul ud us ea s = (Return pw, s') ∧
    ∀ cat, cat ∈ enabled_categories uu ul ud us →
      ∃ c, c ∈ pw ∧ effective ea cat c.
Proof.
  intros Hen. destruct (returns_inv _ _ _ (returns_generate n _ _ _ _ ea s Hen))
    as (pw & s' & Hrun & Hgen).
  exists pw, s'. split; [done|]. by eapply generated_inclusion.
Qed.

Lemma generate_inclusion_witness :
  ∃ pw s', generate 2 true true true true true sample_entropy = (Return pw, s') ∧
    ∀ cat, cat ∈ enabled_categories true true true true →
      ∃ c, c ∈ pw ∧ effective true cat c.
Proof. apply (generate_inclusion 2 true true true true true sample_entropy). reflexivity. Defined.

(** C3. With [exclude_ambiguous] set and at least one category enabled,
    no character of the password [generate] returns is one of
    [il1Lo0O]; this covers the symbol draws and the filler. *)
Theorem generate_excludes_ambiguous n uu ul ud us s :
  uu || ul || ud || us = true →
  ∃ pw s', generate n uu ul ud us true s = (Return pw, s') ∧
    ∀ c, c ∈ pw → c ∉ lit "il1Lo0O".
Proof.
  intros Hen. destruct (returns_inv _ _ _ (returns_generate n _ _ _ _ true s Hen))
    as (pw & s' & Hrun & Hgen).
  exists pw, s'. split; [done|].
  apply Forall_forall. by eapply generated_unambiguous.
Qed.

Lemma generate_excludes_ambiguous_witness :
  ∃ pw s', generate 20 false true false true true sample_entropy = (Return pw, s') ∧
    ∀ c, c ∈ pw → c ∉ lit "il1Lo0O".
Proof. apply (generate_excludes_ambiguous 20 false true false true sample_entropy). reflexivity. Defined.

(** C4. With every category disabled [generate] raises the [ValueError]
    of line 86, whatever the length, the ambiguity setting and the
    entropy state, and reads no entropy; the exception is not caught on
    the way out of [generate_multiple] either. *)
Theorem generate_no_category n ea s :
  generate n false false false false ea s
  = (Raise (ValueError "At least one character type must be selected"), s) ∧
  ∀ count, 0 < count →
    generate_multiple count n false false false false ea s
    = (Raise (ValueError "At least one character type must be selected"), s).
Proof.
  split; [reflexivity|]. intros count Hcount.
  unfold generate_multiple, comprehension.
  destruct (Z.to_nat count) as [|k] eqn:Hk; [lia | reflexivity].
Qed.

Lemma generate_no_category_witness :
  generate 16 false false false false true sample_entropy
  = (Raise (ValueError "At least one character type must be selected"), sample_entropy) ∧
  generate_multiple 3 16 false false false false true sample_entropy
  = (Raise (ValueError "At least one character type must be selected"), sample_entropy).
Proof.
  destruct (generate_no_category 16 true sample_entropy) as [Hone Hmany].
  split; [exact Hone | apply Hmany; lia].
Defined.

(** C9. For a count [n >= 0] and a configuration with at least one
    enabled category, [generate_multiple] returns exactly [n] passwords,
    and each satisfies the length invariant and the inclusion
    invariant. *)
Theorem generate_multiple_invariants count n uu ul ud us ea s :
  0 ≤ count →
  uu || ul || ud || us = true →
  ∃ pws s', generate_multiple count n uu ul ud us ea s = (Return pws, s') ∧
    len pws = count ∧
    Forall (λ pw, length_invariant n (enabled_categories uu ul ud us) pw ∧
                  inclusion_invariant ea (enabled_categories uu ul ud us) pw) pws.
Proof.
  intros Hcount Hen. set (cats := enabled_categories uu ul ud us).
  set (invariants pw := length_invariant n cats pw ∧ inclusion_invariant ea cats pw).
  apply (returns_inv _ s (λ pws _, len pws = count ∧ Forall invariants pws)).
  unfold generate_multiple, comprehension.
  eapply returns_mono; [apply (returns_repeatM _ invariants)|].
  - intros s0. eapply returns_mono; [by apply returns_generate|].
    cbv beta. intros pw _ Hgen. split;
      [by eapply generated_length | by eapply generated_inclusion].
  - cbv beta. intros pws _ [Hlen Hall]. split; [unfold len; lia | done].
Qed.

Lemma generate_multiple_invariants_witness :
  ∃ pws s', generate_multiple 3 6 true true false false false sample_entropy
            = (Return pws, s') ∧
    len pws = 3 ∧
    Forall (λ pw, length_invariant 6 (enabled_categories true true false false) pw ∧
                  inclusion_invariant false (enabled_categories true true false false) pw) pws.
Proof.
  apply (generate_multiple_invariants 3 6 true true false false false sample_entropy);
    [lia | reflexivity].
Defined.

(** C10. With at least one category enabled and a requested length
    that is zero or negative, [generate] does not raise: it returns a
    password with one character per enabled category. *)
Theorem generate_nonpositive_length n uu ul ud us ea s :
  n ≤ 0 →
  uu || ul || ud || us = true →
  ∃ pw s', generate n uu ul ud us ea s = (Return pw, s') ∧
    len pw = len (enabled_categories uu ul ud us).
Proof.
  intros Hn Hen. destruct (returns_inv _ _ _ (returns_generate n _ _ _ _ ea s Hen))
    as (pw & s' & Hrun & Hgen%generated_length).
  exists pw, s'. split; [done|]. unfold length_invariant, len in *. lia.
Qed.

Lemma generate_nonpositive_length_witness :
  ∃ pw s', generate (-3) true false true true true sample_entropy = (Return pw, s') ∧
    len pw = len (enabled_categories true false true true).
Proof.
  apply (generate_nonpositive_length (-3) true false true true true sample_entropy);
    [lia | reflexivity].
Defined.

(** C5. [check_strength] is a total function of its argument alone (it
    reads no entropy and raises nothing), so equal passwords get equal
    reports; its score is the number of the seven tests that pass,
    capped at 5, and lies in [0, 5]. *)
Theorem check_strength_score U password :
  (∀ password', password' = password →
     check_strength U password' = check_strength U password) ∧
  (check_strength U password).1 = Z.min (raw_sum U password) 5 ∧
  0 ≤ raw_sum U password ≤ 7 ∧
  0 ≤ (check_strength U password).1 ≤ 5.
Proof.
  split; [by intros ? ->|].
  unfold check_strength, raw_sum, seven_tests. rewrite !Z.geb_leb.
  destruct (8 <=? len password), (12 <=? len password), (16 <=? len password),
    (any (isupper U) password), (any (islower U) password),
    (any (isdigit U) password), (any (λ c, str_in c pystring.punctuation) password);
    vm_compute; intuition congruence.
Qed.

Lemma check_strength_score_witness :
  check_strength ascii_only (lit "") = check_strength ascii_only (lit "") ∧
  (check_strength ascii_only (lit "")).1 = Z.min (raw_sum ascii_only (lit "")) 5.
Proof.
  destruct (check_strength_score ascii_only (lit "")) as (Hdet & Hmin & _).
  split; [apply Hdet; reflexivity | exact Hmin].
Defined.

(** C6, as the specification has it: the suggestions for [abcdefgh]
    would include the strings [add uppercase letters], [add digits] and
    [add symbols].  No character database makes that so. *)
Lemma abcdefgh_suggestions_not_as_stated :
  ¬ ∃ U, (check_strength U (lit "abcdefgh")).1 = 2 ∧
         lit "add uppercase letters" ∈ (check_strength U (lit "abcdefgh")).2 ∧
         lit "add digits" ∈ (check_strength U (lit "abcdefgh")).2 ∧
         lit "add symbols" ∈ (check_strength U (lit "abcdefgh")).2.
Proof.
  intros (U & _ & _ & Hdigits & _). vm_compute in Hdigits.
  repeat (apply elem_of_cons in Hdigits as [Hdigits|Hdigits]; [discriminate|]).
  by apply elem_of_nil in Hdigits.
Qed.

(** C6, amended. [check_strength] on [abcdefgh] returns score 2 and the
    three suggestions [Add uppercase letters], [Add numbers] and
    [Add symbols], in that order. *)
Theorem check_strength_abcdefgh U :
  check_strength U (lit "abcdefgh")
  = (2, [lit "Add uppercase letters"; lit "Add numbers"; lit "Add symbols"]).
Proof. reflexivity. Qed.

(** C7. [check_strength] on [Ab3!xyz9QQ22], twelve characters with an
    uppercase letter, a lowercase letter, a digit and a symbol, returns
    score 5: six tests pass and the cap applies. *)
Theorem check_strength_all_classes U :
  len (lit "Ab3!xyz9QQ22") = 12 ∧
  raw_sum U (lit "Ab3!xyz9QQ22") = 6 ∧
  (check_strength U (lit "Ab3!xyz9QQ22")).1 = 5.
Proof. split_and!; reflexivity. Qed.

(** ** [generate_memorable] *)

Lemma skip_0 s : skip 0 s = s.
Proof. destruct s. unfold skip. cbn. by rewrite Nat.add_0_r. Qed.

Lemma skip_advance k s : skip k (advance s) = skip (S k) s.
Proof. unfold skip, advance. cbn. f_equal. lia. Qed.

Lemma cells_S k s : cells (S k) s = tape s (cursor s) :: cells k (advance s).
Proof.
  unfold cells. cbn [seq fmap list_fmap]. rewrite Nat.add_0_r. f_equal.
  rewrite <-fmap_S_seq, <-list_fmap_compose. apply list_fmap_ext.
  intros _ i _. cbn. f_equal. lia.
Qed.

Lemma choice_run {A} (l : list A) d s :
  l ≠ [] → choice l s = (Return (nth (tape s (cursor s) mod length l) l d), advance s).
Proof.
  intros Hne. destruct l as [|a l']; [done|].
  unfold choice, bind, _randbelow. set (l := a :: l') in *.
  destruct (lookup_lt_is_Some_2 l (tape s (cursor s) mod length l)) as [x Hx].
  { apply Nat.mod_upper_bound. subst l. cbn. lia. }
  unfold getitem. rewrite Hx. by rewrite (nth_lookup_Some _ _ d _ Hx).
Qed.

Lemma repeatM_choice_run {A} (l : list A) d k s :
  l ≠ [] →
  repeatM k (choice l) s
  = (Return ((λ r, nth (r mod length l) l d) <$> cells k s), skip k s).
Proof.
  intros Hne. revert s. induction k as [|k IH]; intros s.
  - by rewrite skip_0.
  - cbn [repeatM]. unfold bind at 1. rewrite (choice_run l d s Hne).
    unfold bind at 1. rewrite IH, cells_S, skip_advance. done.
Qed.

(** [generate_memorable] run on a given entropy state. *)
Lemma generate_memorable_run words separator cap add_number s :
  let k := Z.to_nat words in
  let selected := word_at <$> cells k s in
  generate_memorable words separator cap add_number s
  = (Return (join separator (if cap then capitalize <$> selected else selected)
             ++ (if add_number then str_of_nat (tape s (cursor s + k) mod 100) else [])),
     skip (k + (if add_number then 1 else 0)) s).
Proof.
  cbv zeta. unfold generate_memorable, comprehension. unfold bind at 1.
  rewrite (repeatM_choice_run word_list [] (Z.to_nat words) s) by done.
  change (λ r, nth _ word_list []) with word_at. destruct add_number.
  - unfold bind, randbelow, _randbelow. cbn [Z.leb Z.compare]. cbn [skip tape cursor].
    unfold advance, skip. cbn [tape cursor]. do 3 f_equal. lia.
  - unfold ret. rewrite app_nil_r, Nat.add_0_r. done.
Qed.

Lemma word_at_elem_of r : word_at r ∈ word_list.
Proof.
  unfold word_at. destruct (nth_lookup_or_length word_list (r mod length word_list) [])
    as [Hw|Hlen].
  - by eapply list_elem_of_lookup_2.
  - pose proof (Nat.mod_upper_bound r (length word_list)). cbn in *. lia.
Qed.

Lemma capitalize_word_list w : w ∈ word_list → is_capitalized (capitalize w) = true.
Proof.
  assert (H : Forall (λ w, is_capitalized (capitalize w) = true) word_list).
  { repeat constructor. }
  intros Hw. by eapply Forall_forall in H.
Qed.

Lemma str_of_nat_below_100 n :
  (n < 100)%nat →
  is_short_decimal (str_of_nat n) = true ∧ digits_value (str_of_nat n) = n.
Proof.
  assert (H : Forall (λ n, is_short_decimal (str_of_nat n) = true ∧
                           digits_value (str_of_nat n) = n) (seq 0 100)).
  { apply Forall_forall. intros k Hk.
    repeat (apply elem_of_cons in Hk as [->|Hk]; [by vm_compute|]).
    by apply elem_of_nil in Hk. }
  intros Hn. eapply Forall_forall in H; [done|].
  apply list_elem_of_In, in_seq. lia.
Qed.

Lemma cells_entropy_of rs rs' : cells (length rs) (entropy_of (rs ++ rs')) = rs.
Proof.
  unfold cells. cbn. apply list_eq. intros i. rewrite list_lookup_fmap.
  destruct (decide (i < length rs)%nat) as [Hi|Hi].
  - rewrite lookup_seq_lt by done. cbn. rewrite app_nth1 by done.
    destruct (lookup_lt_is_Some_2 rs i Hi) as [r Hr]. rewrite Hr. f_equal.
    by apply nth_lookup_Some.
  - rewrite lookup_seq_ge, lookup_ge_None_2 by lia. done.
Qed.

Lemma word_at_index w : w ∈ word_list → ∃ r, (r < 42)%nat ∧ word_at r = w.
Proof.
  intros [i Hi]%list_elem_of_lookup. pose proof (lookup_lt_Some _ _ _ Hi) as Hlt.
  exists i. split; [exact Hlt|]. unfold word_at. rewrite Nat.mod_small by done.
  by apply nth_lookup_Some.
Qed.

Lemma words_selectable ws :
  Forall (λ w, w ∈ word_list) ws → ∃ rs, word_at <$> rs = ws.
Proof.
  induction 1 as [|w ws Hw _ [rs Hrs]]; [by exists []|].
  destruct (word_at_index w Hw) as (r & _ & Hr).
  exists (r :: rs). by rewrite fmap_cons, Hr, Hrs.
Qed.

(** C8. [generate_memorable(4, "-", True, True)] returns four entries of
    the word list, each capitalized, joined by [-], followed by the
    decimal digits of a number below 100.  In general the selected words
    are [words] entries of the whole list, one per entropy cell read
    (the cell's value modulo the list's length, so an entry may repeat),
    capitalized on request, joined by the separator, and followed on
    request by the decimal digits of one more cell modulo 100; every
    sequence of entries and every number below 100 is produced by some
    entropy. *)
Theorem generate_memorable_pattern :
  (∀ s, ∃ w1 w2 w3 w4 n s',
     generate_memorable 4 (lit "-") true true s
     = (Return (capitalize w1 ++ lit "-" ++ capitalize w2 ++ lit "-" ++
                capitalize w3 ++ lit "-" ++ capitalize w4 ++ str_of_nat n), s') ∧
     Forall (λ w, w ∈ word_list ∧ is_capitalized (capitalize w) = true)
       [w1; w2; w3; w4] ∧
     (n < 100)%nat ∧
     is_short_decimal (str_of_nat n) = true ∧ digits_value (str_of_nat n) = n) ∧
  (∀ words separator cap add_number s, ∃ selected n,
     generate_memorable words separator cap add_number s
     = (Return (join separator (if cap then capitalize <$> selected else selected)
                ++ (if add_number then str_of_nat n else [])),
        skip (Z.to_nat words + (if add_number then 1 else 0)) s) ∧
     selected = word_at <$> cells (Z.to_nat words) s ∧
     n = (tape s (cursor s + Z.to_nat words) mod 100)%nat ∧
     len selected = Z.max words 0 ∧
     Forall (λ w, w ∈ word_list) selected ∧
     (n < 100)%nat) ∧
  (∀ separator cap selected n,
     Forall (λ w, w ∈ word_list) selected → (n < 100)%nat →
     ∃ s s', generate_memorable (len selected) separator cap true s
             = (Return (join separator
                          (if cap then capitalize <$> selected else selected)
                        ++ str_of_nat n), s')).
Proof.
  split_and!.
  - intros s. pose proof (generate_memorable_run 4 (lit "-") true true s) as Hrun.
    cbv zeta in Hrun. change (Z.to_nat 4) with 4%nat in Hrun.
    rewrite !cells_S in Hrun. cbn [cells seq fmap list_fmap join] in Hrun.
    rewrite <-!app_assoc in Hrun.
    do 4 eexists. exists (tape s (cursor s + 4) mod 100)%nat. eexists.
    split; [exact Hrun|].
    assert (Hn : (tape s (cursor s + 4) mod 100 < 100)%nat)
      by (apply Nat.mod_upper_bound; lia).
    split_and!; [|exact Hn|apply str_of_nat_below_100, Hn..].
    repeat (apply Forall_cons_2;
      [split; [apply word_at_elem_of | apply capitalize_word_list, word_at_elem_of]|]).
    apply Forall_nil_2.
  - intros words separator cap add_number s. do 2 eexists.
    split; [apply generate_memorable_run|]. split_and!; [done | done | | |].
    + unfold len, cells. rewrite !length_fmap, length_seq. lia.
    + apply Forall_fmap, Forall_forall. intros r _. apply word_at_elem_of.
    + apply Nat.mod_upper_bound. lia.
  - intros separator cap selected n [rs <-]%words_selectable Hn.
    exists (entropy_of (rs ++ [n])). eexists.
    rewrite generate_memorable_run. cbv zeta. unfold len.
    rewrite Nat2Z.id, length_fmap, cells_entropy_of. cbn [entropy_of tape cursor].
    rewrite Nat.add_0_l, app_nth2, Nat.sub_diag by lia. cbn [nth].
    by rewrite Nat.mod_small.
Qed.

Lemma generate_memorable_pattern_witness :
  ∃ s s', generate_memorable (len [lit "tiger"; lit "tiger"]) (lit "_") true true s
          = (Return (lit "Tiger_Tiger7"), s').
Proof.
  destruct generate_memorable_pattern as (_ & _ & Hany).
  apply (Hany (lit "_") true [lit "tiger"; lit "tiger"] 7%nat); [|lia].
  apply (bool_decide_unpack _). vm_compute. exact I.
Defined.

Example generate_memorable_sample :
  (generate_memorable 4 (lit "-") true true sample_entropy).1
  = Return (lit "Lima-Victor-Delta-Summer35").
Proof. vm_compute. reflexivity. Qed.

(** ** Further properties of [generate] *)

Lemma generated_alphabet n ea cats pw :
  generated n ea cats pw → ∀ c, c ∈ pw → ∃ cat, cat ∈ cats ∧ effective ea cat c.
Proof.
  intros (required & filler & Hperm & Hreq & _ & Hfiller) c.
  rewrite Hperm, elem_of_app. intros [[i Hi]%list_elem_of_lookup|Hc].
  - destruct (Forall2_lookup_r _ _ _ _ _ Hreq Hi) as (cat & Hcat & Heff).
    exists cat. split; [by eapply list_elem_of_lookup_2 | done].
  - by eapply Forall_forall in Hfiller.
Qed.

(** X1. Every character of a generated password comes from the effective
    set of an enabled category: a disabled category contributes
    nothing. *)
Theorem generate_alphabet n uu ul ud us ea s :
  uu || ul || ud || us = true →
  ∃ pw s', generate n uu ul ud us ea s = (Return pw, s') ∧
    ∀ c, c ∈ pw → ∃ cat, cat ∈ enabled_categories uu ul ud us ∧ effective ea cat c.
Proof.
  intros Hen. destruct (returns_inv _ _ _ (returns_generate n _ _ _ _ ea s Hen))
    as (pw & s' & Hrun & Hgen).
  exists pw, s'. split; [done|]. by eapply generated_alphabet.
Qed.

Lemma generate_alphabet_witness :
  ∃ pw s', generate 12 true false true false false sample_entropy = (Return pw, s') ∧
    ∀ c, c ∈ pw →
      ∃ cat, cat ∈ enabled_categories true false true false ∧ effective false cat c.
Proof. apply (generate_alphabet 12 true false true false false sample_entropy). reflexivity. Defined.

Lemma classify_base_set cat c : c ∈ base_set cat → classify c = Some cat.
Proof.
  intros Hc. destruct cat; cbv [base_set] in Hc;
    repeat (apply elem_of_cons in Hc as [->|Hc]; [reflexivity|]);
    by apply elem_of_nil in Hc.
Qed.

Lemma base_sets_disjoint cat cat' c : c ∈ base_set cat → c ∈ base_set cat' → cat = cat'.
Proof. intros H%classify_base_set H'%classify_base_set. congruence. Qed.

Lemma enabled_categories_NoDup uu ul ud us : NoDup (enabled_categories uu ul ud us).
Proof. destruct uu, ul, ud, us; apply (bool_decide_unpack _); by vm_compute. Qed.

Lemma count_in_required ea cats required cat :
  NoDup cats → Forall2 (effective ea) cats required →
  count_in cat required = if decide (cat ∈ cats) then 1%nat else 0%nat.
Proof.
  intros Hnodup Hreq. induction Hreq as [|cat0 c0 cats required [Hc0 _] _ IH].
  { by rewrite decide_False by apply not_elem_of_nil. }
  apply NoDup_cons in Hnodup as [Hfresh Hnodup]. specialize (IH Hnodup).
  unfold count_in in *. rewrite filter_cons. destruct (decide (c0 ∈ base_set cat)) as [Hc|Hc].
  - pose proof (base_sets_disjoint _ _ _ Hc Hc0) as ->.
    rewrite decide_False in IH by done. rewrite decide_True by left. cbn. by rewrite IH.
  - rewrite IH. destruct (decide (cat ∈ cats)) as [Hin|Hin].
    + rewrite decide_True by (by right). done.
    + rewrite decide_False; [done|]. intros [->|?]%elem_of_cons; done.
Qed.

(** X2. When the requested length does not exceed the number of enabled
    categories, the password holds exactly one character of each enabled
    category's base set, and none of a disabled one. *)
Theorem generate_one_per_category n uu ul ud us ea s :
  n ≤ len (enabled_categories uu ul ud us) →
  uu || ul || ud || us = true →
  ∃ pw s', generate n uu ul ud us ea s = (Return pw, s') ∧
    ∀ cat, count_in cat pw
           = if decide (cat ∈ enabled_categories uu ul ud us) then 1%nat else 0%nat.
Proof.
  intros Hn Hen. destruct (returns_inv _ _ _ (returns_generate n _ _ _ _ ea s Hen))
    as (pw & s' & Hrun & required & filler & Hperm & Hreq & Hlen & _).
  exists pw, s'. split; [done|]. intros cat.
  assert (filler = []) as ->.
  { apply length_zero_iff_nil. unfold len in *. lia. }
  rewrite app_nil_r in Hperm.
  rewrite <-(count_in_required ea _ required cat (enabled_categories_NoDup _ _ _ _) Hreq).
  unfold count_in. by rewrite Hperm.
Qed.

Lemma generate_one_per_category_witness :
  ∃ pw s', generate 2 true true false true true sample_entropy = (Return pw, s') ∧
    ∀ cat, count_in cat pw
           = if decide (cat ∈ enabled_categories true true false true) then 1%nat else 0%nat.
Proof.
  apply (generate_one_per_category 2 true true false true true sample_entropy);
    [vm_compute; discriminate | reflexivity].
Defined.

(** ** Further properties of [check_strength] *)

(** Case analysis on the seven tests of [check_strength]. *)
Ltac scorer_cases U password :=
  unfold check_strength; rewrite !Z.geb_leb;
  destruct (Z.leb_spec 8 (len password)), (Z.leb_spec 12 (len password)),
    (Z.leb_spec 16 (len password));
  destruct (any (isupper U) password), (any (islower U) password),
    (any (isdigit U) password), (any (λ c, str_in c pystring.punctuation) password);
  cbn [award award_or_advise app fst snd].

(** X3. [check_strength] has no suggestion to make exactly when the
    password has at least 8 characters and holds an uppercase letter, a
    lowercase letter, a digit and a punctuation character. *)
Theorem feedback_empty_iff U password :
  (check_strength U password).2 = [] ↔
  8 ≤ len password ∧
  any (isupper U) password = true ∧ any (islower U) password = true ∧
  any (isdigit U) password = true ∧
  any (λ c, str_in c pystring.punctuation) password = true.
Proof. scorer_cases U password; split; intros; destruct_and?; try done; lia. Qed.

(** X4. Every suggestion costs at most one point: the score is at least
    5 minus the number of suggestions (so a report without suggestions
    carries the top score), and there are at most five suggestions.  The
    cap hides a missing class: a score of 5 can come with a
    suggestion. *)
Theorem score_bounded_by_feedback U password :
  5 - len (check_strength U password).2 ≤ (check_strength U password).1 ≤ 5 ∧
  len (check_strength U password).2 ≤ 5 ∧
  ∃ p, check_strength U p = (5, [lit "Add uppercase letters"]).
Proof.
  split_and!; [scorer_cases U password; unfold len in *; cbn [length]; lia..|].
  exists (lit "abcdefghijklmnop1!"). reflexivity.
Qed.

(** X5. The suggestions are distinct and come in the order of the
    tests: the list is a sublist of the five messages. *)
Theorem feedback_sublist U password :
  sublist (check_strength U password).2 messages.
Proof.
  scorer_cases U password; unfold messages;
    repeat first [apply sublist_nil | apply sublist_skip | apply sublist_cons].
Qed.

(** ** The scorer on what the generators return *)

Lemma any_intro (p : N → bool) (c : N) (s : str) : c ∈ s → p c = true → any p s = true.
Proof. intros Hc Hp. apply existsb_exists. exists c. by rewrite <-list_elem_of_In. Qed.

Lemma any_app (p : N → bool) (s t : str) : any p (s ++ t) = any p s || any p t.
Proof. apply existsb_app. Qed.

Lemma between_isupper U c : between 65 90 c = true → isupper U c = true.
Proof.
  unfold isupper, is_ascii, between. intros Hb.
  pose proof (proj1 (andb_true_iff _ _) Hb) as [_ H%N.leb_le].
  destruct (N.ltb_spec c 128); [exact Hb | lia].
Qed.

Lemma between_islower U c : between 97 122 c = true → islower U c = true.
Proof.
  unfold islower, is_ascii, between. intros Hb.
  pose proof (proj1 (andb_true_iff _ _) Hb) as [_ H%N.leb_le].
  destruct (N.ltb_spec c 128); [exact Hb | lia].
Qed.

Lemma between_isdigit U c : between 48 57 c = true → isdigit U c = true.
Proof.
  unfold isdigit, is_ascii, between. intros Hb.
  pose proof (proj1 (andb_true_iff _ _) Hb) as [_ H%N.leb_le].
  destruct (N.ltb_spec c 128); [exact Hb | lia].
Qed.

(** A character of a category's base set passes the scorer's test for
    that category. *)
Lemma base_set_test U cat c :
  c ∈ base_set cat →
  match cat with
  | Upper => isupper U c
  | Lower => islower U c
  | Digit => isdigit U c
  | Symbol => str_in c pystring.punctuation
  end = true.
Proof.
  intros Hc. pose proof (classify_base_set _ _ Hc) as Hclass.
  destruct cat; [| | |by apply str_in_spec];
    [apply between_isupper | apply between_islower | apply between_isdigit];
    unfold classify in Hclass;
    repeat (destruct (between _ _ c); try done).
Qed.

Lemma generated_rated_top U n ea pw :
  8 ≤ n → generated n ea (enabled_categories true true true true) pw →
  check_strength U pw = (5, []).
Proof.
  intros Hn Hgen.
  pose proof (generated_length _ _ _ _ Hgen) as Hlen.
  pose proof (generated_inclusion _ _ _ _ Hgen) as Hincl.
  assert (Htest : ∀ cat, ∃ c, c ∈ pw ∧ c ∈ base_set cat).
  { intros cat. destruct (Hincl cat) as (c & Hc & Hbase & _); [|by eauto].
    destruct cat; cbn; repeat first [by left | right]. }
  destruct (Htest Upper) as (cu & Hcu & Hu%(base_set_test U)).
  destruct (Htest Lower) as (cl & Hcl & Hl%(base_set_test U)).
  destruct (Htest Digit) as (cd & Hcd & Hd%(base_set_test U)).
  destruct (Htest Symbol) as (cs & Hcs & Hs%(base_set_test U)).
  unfold length_invariant in Hlen. change (len (enabled_categories _ _ _ _)) with 4 in Hlen.
  unfold check_strength.
  rewrite (any_intro _ _ _ Hcu Hu), (any_intro _ _ _ Hcl Hl), (any_intro _ _ _ Hcd Hd),
    (any_intro (λ c, str_in c pystring.punctuation) _ _ Hcs Hs), !Z.geb_leb.
  destruct (Z.leb_spec 8 (len pw)); [|lia].
  by destruct (12 <=? len pw), (16 <=? len pw).
Qed.

(** X6. A password generated with all four categories and a requested
    length of at least 8 gets the top score from [check_strength], with
    no suggestion, whatever the entropy and the ambiguity setting. *)
Theorem generate_rated_top U n ea s :
  8 ≤ n →
  ∃ pw s', generate n true true true true ea s = (Return pw, s') ∧
    check_strength U pw = (5, []).
Proof.
  intros Hn.
  destruct (returns_inv _ _ _ (returns_generate n true true true true ea s eq_refl))
    as (pw & s' & Hrun & Hgen).
  exists pw, s'. split; [done|]. by eapply generated_rated_top.
Qed.

Lemma generate_rated_top_witness :
  ∃ pw s', generate 8 true true true true false sample_entropy = (Return pw, s') ∧
    check_strength ascii_only pw = (5, []).
Proof. apply (generate_rated_top ascii_only 8 false sample_entropy). lia. Defined.

Lemma join_cons_cons sep p q rest :
  join sep (p :: q :: rest) = p ++ sep ++ join sep (q :: rest).
Proof. reflexivity. Qed.

Lemma length_join_cons sep p rest : (length p ≤ length (join sep (p :: rest)))%nat.
Proof. destruct rest; [done|]. rewrite join_cons_cons, length_app. lia. Qed.

(** A capitalized entry of the word list: a capital, a lower-case
    letter, and at least two more characters. *)
Lemma capitalize_word_shape w :
  w ∈ word_list →
  ∃ c1 c2 rest, capitalize w = c1 :: c2 :: rest ∧
    between 65 90 c1 = true ∧ between 97 122 c2 = true ∧ (2 ≤ length rest)%nat.
Proof.
  assert (H : Forall (λ w, ∃ c1 c2 rest, capitalize w = c1 :: c2 :: rest ∧
    between 65 90 c1 = true ∧ between 97 122 c2 = true ∧ (2 ≤ length rest)%nat) word_list).
  { repeat (apply Forall_cons_2;
      [do 3 eexists; split_and!; [reflexivity | reflexivity | reflexivity | cbn; lia]|]).
    apply Forall_nil_2. }
  intros Hw. by eapply Forall_forall in H.
Qed.

Lemma str_of_nat_shape n :
  (n < 100)%nat → ∃ d rest, str_of_nat n = d :: rest ∧ between 48 57 d = true.
Proof.
  intros [Hdec _]%str_of_nat_below_100. unfold is_short_decimal in Hdec.
  destruct (str_of_nat n) as [|d rest]; [done|]. exists d, rest. split; [done|].
  cbn [forallb] in Hdec. by destruct (between 48 57 d).
Qed.

Lemma passphrase_rated_top U k s :
  (3 ≤ k)%nat →
  check_strength U
    (join (lit "-") (capitalize <$> (word_at <$> cells k s))
     ++ str_of_nat (tape s (cursor s + k) mod 100))
  = (5, []).
Proof.
  intros Hk. destruct k as [|[|[|k]]]; [lia..|].
  rewrite !cells_S, !fmap_cons, !join_cons_cons.
  set (n := (tape s (cursor s + S (S (S k))) mod 100)%nat).
  destruct (capitalize_word_shape _ (word_at_elem_of (tape s (cursor s))))
    as (c1 & c2 & ra & -> & Hc1%(between_isupper U) & Hc2%(between_islower U) & Hra).
  destruct (capitalize_word_shape _
    (word_at_elem_of (tape (advance s) (cursor (advance s)))))
    as (b1 & b2 & rb & -> & _ & _ & Hrb).
  set (w3 := capitalize (word_at _)). set (tl := capitalize <$> _).
  pose proof (length_join_cons (lit "-") w3 tl) as Hj.
  destruct (capitalize_word_shape _ (word_at_elem_of
    (tape (advance (advance s)) (cursor (advance (advance s))))))
    as (d1 & d2 & rd & Hw3 & _ & _ & Hrd).
  fold w3 in Hw3. rewrite Hw3 in Hj. cbn [length] in Hj.
  destruct (str_of_nat_shape n) as (d & rest & -> & Hd%(between_isdigit U)).
  { apply Nat.mod_upper_bound. lia. }
  set (J := join _ _) in *. change (lit "-") with [45%N].
  unfold check_strength.
  rewrite (any_intro (isupper U) c1), (any_intro (islower U) c2),
    (any_intro (isdigit U) d), (any_intro (λ c, str_in c pystring.punctuation) 45%N);
    [|rewrite ?elem_of_app, ?elem_of_cons; auto 10..].
  rewrite !Z.geb_leb. unfold len. rewrite !length_app. cbn [length].
  repeat match goal with
    |- context [(?a <=? ?b)] => destruct (Z.leb_spec a b); [|try lia]
  end; first [reflexivity | lia].
Qed.

(** X7. A passphrase of three or more words, joined by [-], capitalized
    and with the number appended (the defaults, and what [main] asks
    for), gets the top score from [check_strength] with no suggestion. *)
Theorem memorable_rated_top U words s :
  3 ≤ words →
  ∃ passphrase s',
    generate_memorable words (lit "-") true true s = (Return passphrase, s') ∧
    check_strength U passphrase = (5, []).
Proof.
  intros Hwords. rewrite generate_memorable_run. cbv zeta. do 2 eexists.
  split; [reflexivity|]. apply passphrase_rated_top. lia.
Qed.

Lemma memorable_rated_top_witness :
  ∃ passphrase s',
    generate_memorable 3 (lit "-") true true sample_entropy = (Return passphrase, s') ∧
    check_strength ascii_only passphrase = (5, []).
Proof. apply (memorable_rated_top ascii_only 3 sample_entropy). lia. Defined.

(** ** Edge cases of the counts *)

(** X8. [generate_multiple] with a count of zero or less returns the
    empty list and reads no entropy, for every configuration: the
    [ValueError] of a configuration without categories does not show. *)
Theorem generate_multiple_nonpositive count n uu ul ud us ea s :
  count ≤ 0 →
  generate_multiple count n uu ul ud us ea s = (Return [], s).
Proof.
  intros Hcount. unfold generate_multiple, comprehension.
  by replace (Z.to_nat count) with 0%nat by lia.
Qed.

Lemma generate_multiple_nonpositive_witness :
  generate_multiple (-2) 16 false false false false true sample_entropy
  = (Return [], sample_entropy).
Proof.
  apply (generate_multiple_nonpositive (-2) 16 false false false false true sample_entropy).
  lia.
Defined.

(** X9. [generate_memorable] with a word count of zero or less selects
    no word: with the number appended the passphrase is the number
    alone, one or two digits from a single entropy cell; without it the
    passphrase is empty and no entropy is read. *)
Theorem generate_memorable_no_words words separator cap s :
  words ≤ 0 →
  generate_memorable words separator cap true s
  = (Return (str_of_nat (tape s (cursor s) mod 100)), skip 1 s) ∧
  is_short_decimal (str_of_nat (tape s (cursor s) mod 100)) = true ∧
  generate_memorable words separator cap false s = (Return [], s).
Proof.
  intros Hwords. rewrite !generate_memorable_run. cbv zeta.
  replace (Z.to_nat words) with 0%nat by lia.
  rewrite Nat.add_0_r, skip_0. cbn [cells seq fmap list_fmap join app Nat.add].
  split_and!; [by destruct cap | | by destruct cap].
  apply str_of_nat_below_100, Nat.mod_upper_bound. lia.
Qed.

Lemma generate_memorable_no_words_witness :
  generate_memorable 0 (lit "-") true true sample_entropy
  = (Return (lit "11"), skip 1 sample_entropy) ∧
  generate_memorable 0 (lit "-") true false sample_entropy = (Return [], sample_entropy).
Proof.
  destruct (generate_memorable_no_words 0 (lit "-") true sample_entropy) as (Hnum & _ & Hnone);
    [lia|].
  split; [exact Hnum | exact Hnone].
Defined.

(** ** [Password_Generator.generate_password] *)

Lemma cells_constant r k s : (∀ j, tape s j = r) → cells k s = replicate k r.
Proof.
  revert s. induction k as [|k IH]; intros s Htape; [done|].
  rewrite cells_S, Htape. cbn [replicate]. f_equal. by apply IH.
Qed.

Lemma generate_password_run n s :
  let characters :=
    Password_Generator.ascii_letters ++ pystring.digits ++ pystring.punctuation in
  Password_Generator.generate_password n s
  = (Return ((λ r, nth (r mod 94) characters 0%N) <$> cells (Z.to_nat n) s),
     skip (Z.to_nat n) s).
Proof.
  cbv zeta. unfold Password_Generator.generate_password, comprehension, bind.
  by rewrite (repeatM_choice_run _ 0%N) by done.
Qed.

(** X10. The first version's [generate_password] returns, for every
    length, a string of [max(length, 0)] characters, each one of the 94
    letters, digits and punctuation characters, reading one entropy cell
    per character. *)
Theorem generate_password_length_alphabet n s :
  ∃ password,
    Password_Generator.generate_password n s
    = (Return password, skip (Z.to_nat n) s) ∧
    len password = Z.max n 0 ∧
    ∀ c, c ∈ password →
      c ∈ Password_Generator.ascii_letters ++ pystring.digits ++ pystring.punctuation.
Proof.
  eexists. split; [apply generate_password_run|]. split.
  - unfold len, cells. rewrite !length_fmap, length_seq. lia.
  - intros c (r & -> & _)%list_elem_of_fmap.
    set (characters := _ ++ _ ++ _).
    destruct (nth_lookup_or_length characters (r mod 94) 0%N) as [Hc|Hlen].
    + by eapply list_elem_of_lookup_2.
    + pose proof (Nat.mod_upper_bound r 94). change (length characters) with 94%nat in Hlen.
      lia.
Qed.

(** X11. [generate_password] guarantees no category: for every
    character of its alphabet, ambiguous ones included, some entropy
    makes the whole password that one character repeated. *)
Theorem generate_password_no_guarantee n c :
  c ∈ Password_Generator.ascii_letters ++ pystring.digits ++ pystring.punctuation →
  ∃ s s', Password_Generator.generate_password n s
          = (Return (replicate (Z.to_nat n) c), s').
Proof.
  intros [i Hi]%list_elem_of_lookup. pose proof (lookup_lt_Some _ _ _ Hi) as Hlt.
  change (length _) with 94%nat in Hlt.
  exists {| tape := λ _, i; cursor := 0 |}. eexists.
  rewrite generate_password_run. cbv zeta.
  rewrite (cells_constant i) by done. rewrite fmap_replicate.
  by rewrite Nat.mod_small, (nth_lookup_Some _ _ _ _ Hi).
Qed.

Lemma generate_password_no_guarantee_witness :
  ∃ s s', Password_Generator.generate_password 5 s = (Return (lit "lllll"), s').
Proof.
  apply (generate_password_no_guarantee 5 108%N).
  apply (bool_decide_unpack _). vm_compute. exact I.
Defined.

(** ** The console *)

Lemma add_output_nil w : add_output [] w = w.
Proof. destruct w. unfold add_output. cbn. by rewrite app_nil_r. Qed.

Lemma add_output_add_output l1 l2 w :
  add_output l2 (add_output l1 w) = add_output (l1 ++ l2) w.
Proof. unfold add_output. cbn. by rewrite app_assoc. Qed.

Lemma with_rng_id w : with_rng (rng w) w = w.
Proof. by destruct w. Qed.

Lemma print_run text w : print text w = (Return (), add_output [text] w).
Proof. reflexivity. Qed.

Lemma io_bind_run {A B} (m : IO A) (k : A → IO B) w a w' :
  m w = (Return a, w') → io_bind m k w = k a w'.
Proof. unfold io_bind. by intros ->. Qed.

Lemma io_bind_raise {A B} (m : IO A) (k : A → IO B) w e w' :
  m w = (Raise e, w') → io_bind m k w = (Raise e, w').
Proof. unfold io_bind. by intros ->. Qed.

Lemma lift_run {A} (m : M A) w r s' : m (rng w) = (r, s') → lift m w = (r, with_rng s' w).
Proof. unfold lift. by intros ->. Qed.

Lemma io_for_each_print {A} (f : A → str) items w :
  io_for_each items (λ x, print (f x)) w = (Return (), add_output (f <$> items) w).
Proof.
  revert w. induction items as [|x items IH]; intros w; cbn [io_for_each fmap list_fmap].
  - by rewrite add_output_nil.
  - erewrite io_bind_run by apply print_run. by rewrite IH, add_output_add_output.
Qed.







Lemma io_for_each_ext {A} (body body' : A → IO unit) items w :
  (∀ x, body x = body' x) → io_for_each items body w = io_for_each items body' w.
Proof.
  intros Hext. revert w. induction items as [|x items IH]; intros w; [done|].
  cbn [io_for_each]. unfold io_bind. rewrite Hext.
  by destruct (body' x w) as [[[]|e] w'].
Qed.

(** [main] when neither the interactive mode nor the analysis is asked
    for: what is left of its body. *)
Lemma main_generation U C CLIPBOARD im args argc :
  other_mode args argc = false →
  main U C CLIPBOARD im args argc
  = if args_memorable args then
      (do! password :=
         lift (generate_memorable (Z.max 3 (Z.min 8 (args_words args))) (lit "-") true true) in
       print (Fore_GREEN C ++ lit "Passphrase: " ++ Fore_YELLOW C ++ password
              ++ Style_RESET_ALL C) ;;
       display_strength U C password ;;
       copy_if_asked C CLIPBOARD args password)
    else if Z.max 1 (Z.min 20 (args_multiple args)) =? 1 then
      (do! password :=
         lift (generate (Z.max 8 (Z.min 64 (args_length args)))
                 (negb (args_no_upper args)) (negb (args_no_lower args))
                 (negb (args_no_digits args)) (negb (args_no_symbols args))
                 (negb (args_include_ambiguous args))) in
       print (Fore_GREEN C ++ lit "Password: " ++ Fore_YELLOW C ++ password
              ++ Style_RESET_ALL C) ;;
       display_strength U C password ;;
       copy_if_asked C CLIPBOARD args password)
    else
      (do! passwords :=
         lift (generate_multiple (Z.max 1 (Z.min 20 (args_multiple args)))
                 (Z.max 8 (Z.min 64 (args_length args)))
                 (negb (args_no_upper args)) (negb (args_no_lower args))
                 (negb (args_no_digits args)) (negb (args_no_symbols args))
                 (negb (args_include_ambiguous args))) in
       print (Fore_GREEN C ++ lit "Generated "
              ++ str_of_int (Z.max 1 (Z.min 20 (args_multiple args)))
              ++ lit " passwords:" ++ Style_RESET_ALL C ++ newline) ;;
       io_for_each (enumerate passwords 1)
         (λ '(i, pw), print (format_2 i ++ lit ". " ++ pw))).
Proof.
  unfold other_mode, analyze_given, main.
  intros [[-> ->]%orb_false_iff Hanalyze]%orb_false_iff. cbn [orb].
  by destruct (args_analyze args) as [[|c analyze]|].
Qed.

(** X13. When [main] is to generate passwords and all four categories
    are switched off, the [ValueError] of [generate] leaves [main]
    uncaught, with nothing printed and no entropy read, whatever the
    length, the count and the other flags. *)
Theorem main_no_category U C CLIPBOARD im args argc w :
  other_mode args argc = false →
  args_memorable args = false →
  args_no_upper args && args_no_lower args && args_no_digits args
    && args_no_symbols args = true →
  main U C CLIPBOARD im args argc w
  = (Raise (ValueError "At least one character type must be selected"), w).
Proof.
  intros Hmode Hmem (((Hu & Hl)%andb_true_iff & Hd)%andb_true_iff & Hs)%andb_true_iff.
  rewrite (main_generation _ _ _ _ _ _ Hmode), Hmem, Hu, Hl, Hd, Hs. cbn [negb].
  rewrite <-(with_rng_id w) at 2.
  destruct (Z.eqb_spec (Z.max 1 (Z.min 20 (args_multiple args))) 1) as [Hone|Hmany];
    apply io_bind_raise, lift_run; [reflexivity|].
  unfold generate_multiple, comprehension.
  destruct (Z.to_nat _) as [|k] eqn:Hk; [lia | reflexivity].
Qed.

Lemma main_no_category_witness :
  main ascii_only no_colors true (io_ret ()) (sample_args 5 true false None) 2 sample_world
  = (Raise (ValueError "At least one character type must be selected"), sample_world).
Proof.
  apply (main_no_category ascii_only no_colors true (io_ret ())
           (sample_args 5 true false None) 2 sample_world); reflexivity.
Defined.






Lemma returns_generate_multiple count n uu ul ud us ea s :
  uu || ul || ud || us = true →
  returns (generate_multiple count n uu ul ud us ea) s
    (λ pws _, length pws = Z.to_nat count ∧
              Forall (generated n ea (enabled_categories uu ul ud us)) pws).
Proof.
  intros Hen. unfold generate_multiple, comprehension.
  apply returns_repeatM. intros s0. by apply returns_generate.
Qed.

(** X16. When [main] is to generate several passwords (a count of 2 or
    more, cut at 20) and at least one category is left on, it never
    raises and prints a heading, then the passwords numbered from 1 in
    two columns, each of the requested length clamped to [8, 64].  No
    strength report is printed, and the clipboard is left alone even
    when the copy is asked for. *)
Theorem main_prints_passwords U C CLIPBOARD im args argc w :
  other_mode args argc = false →
  args_memorable args = false →
  2 ≤ args_multiple args →
  negb (args_no_upper args) || negb (args_no_lower args) || negb (args_no_digits args)
    || negb (args_no_symbols args) = true →
  ∃ pws s',
    main U C CLIPBOARD im args argc w
    = (Return (),
       add_output
         ((Fore_GREEN C ++ lit "Generated " ++ str_of_int (Z.min 20 (args_multiple args))
           ++ lit " passwords:" ++ Style_RESET_ALL C ++ newline)
          :: ((λ '(i, pw), format_2 i ++ lit ". " ++ pw) <$> enumerate pws 1))
         (with_rng s' w)) ∧
    len pws = Z.min 20 (args_multiple args) ∧
    Forall (λ pw, len pw = Z.max 8 (Z.min 64 (args_length args))) pws.
Proof.
  intros Hmode Hmem Hmany Hen.
  destruct (returns_inv _ _ _ (returns_generate_multiple
    (Z.max 1 (Z.min 20 (args_multiple args))) (Z.max 8 (Z.min 64 (args_length args)))
    _ _ _ _ (negb (args_include_ambiguous args)) (rng w) Hen))
    as (pws & s' & Hrun & Hlen & Hall).
  exists pws, s'. split_and!.
  - rewrite (main_generation _ _ _ _ _ _ Hmode), Hmem.
    destruct (Z.eqb_spec (Z.max 1 (Z.min 20 (args_multiple args))) 1); [lia|].
    erewrite io_bind_run by apply lift_run, Hrun.
    erewrite io_bind_run by apply print_run.
    rewrite (io_for_each_ext _ (λ x, print ((λ '(i, pw), format_2 i ++ lit ". " ++ pw) x)))
      by (by intros [i pw]).
    rewrite (io_for_each_print (λ '(i, pw), format_2 i ++ lit ". " ++ pw)).
    rewrite add_output_add_output.
    by replace (Z.max 1 (Z.min 20 (args_multiple args)))
      with (Z.min 20 (args_multiple args)) by lia.
  - unfold len. lia.
  - eapply Forall_impl; [exact Hall|]. intros pw Hgen%generated_length.
    unfold length_invariant in Hgen. rewrite Hgen, len_enabled_categories.
    destruct (args_no_upper args), (args_no_lower args), (args_no_digits args),
      (args_no_symbols args); cbn [negb Z.b2z]; lia.
Qed.

Lemma main_prints_passwords_witness :
  ∃ pws s',
    main ascii_only no_colors true (io_ret ()) (sample_args 30 false false None) 2 sample_world
    = (Return (),
       add_output
         ((Fore_GREEN no_colors ++ lit "Generated " ++ str_of_int (Z.min 20 30)
           ++ lit " passwords:" ++ Style_RESET_ALL no_colors ++ newline)
          :: ((λ '(i, pw), format_2 i ++ lit ". " ++ pw) <$> enumerate pws 1))
         (with_rng s' sample_world)) ∧
    len pws = 20 ∧
    Forall (λ pw, len pw = 10) pws.
Proof.
  apply (main_prints_passwords ascii_only no_colors true (io_ret ())
           (sample_args 30 false false None) 2 sample_world);
    [reflexivity | reflexivity | cbn; lia | reflexivity].
Defined.





(** X19. An empty [--analyze] string is not analysed: [main] goes on
    exactly as if the option had not been given. *)
Theorem main_empty_analyze U C CLIPBOARD im args argc :
  args_analyze args = Some [] →
  main U C CLIPBOARD im args argc = main U C CLIPBOARD im (with_analyze None args) argc.
Proof. intros Hanalyze. unfold main. by rewrite Hanalyze. Qed.

Lemma main_empty_analyze_witness :
  main ascii_only no_colors true (io_ret ()) (sample_args 1 false false (Some [])) 2
  = main ascii_only no_colors true (io_ret ())
      (with_analyze None (sample_args 1 false false (Some []))) 2.
Proof.
  apply (main_empty_analyze ascii_only no_colors true (io_ret ())
           (sample_args 1 false false (Some [])) 2). reflexivity.
Defined.

(** ** The scorer is monotone *)

Lemma check_strength_score_sum U password :
  (check_strength U password).1
  = Z.min (Z.b2z (8 <=? len password) + Z.b2z (12 <=? len password)
           + Z.b2z (16 <=? len password)
           + Z.b2z (any (isupper U) password) + Z.b2z (any (islower U) password)
           + Z.b2z (any (isdigit U) password)
           + Z.b2z (any (λ c, str_in c pystring.punctuation) password)) 5.
Proof.
  unfold check_strength. rewrite !Z.geb_leb.
  by destruct (8 <=? len password), (12 <=? len password), (16 <=? len password),
    (any (isupper U) password), (any (islower U) password),
    (any (isdigit U) password), (any (λ c, str_in c pystring.punctuation) password).
Qed.

Lemma check_strength_feedback U password :
  (check_strength U password).2
  = (if 8 <=? len password then [] else [lit "Too short (min 8)"]) ++
    (if any (isupper U) password then [] else [lit "Add uppercase letters"]) ++
    (if any (islower U) password then [] else [lit "Add lowercase letters"]) ++
    (if any (isdigit U) password then [] else [lit "Add numbers"]) ++
    (if any (λ c, str_in c pystring.punctuation) password then [] else [lit "Add symbols"]).
Proof.
  unfold check_strength. rewrite !Z.geb_leb.
  by destruct (8 <=? len password), (12 <=? len password), (16 <=? len password),
    (any (isupper U) password), (any (islower U) password),
    (any (isdigit U) password), (any (λ c, str_in c pystring.punctuation) password).
Qed.

Lemma b2z_leb_mono k n m : n ≤ m → Z.b2z (k <=? n) ≤ Z.b2z (k <=? m).
Proof. intros. destruct (Z.leb_spec k n), (Z.leb_spec k m); cbn; lia. Qed.

Lemma b2z_orb_l a b : Z.b2z a ≤ Z.b2z (a || b).
Proof. by destruct a, b. Qed.

Lemma advice_sublist (a b : bool) (msg : str) :
  (a = true → b = true) →
  sublist (if b then [] else [msg]) (if a then [] else [msg]).
Proof.
  intros Hab. destruct a; [by rewrite Hab|].
  destruct b; [apply sublist_nil_l | done].
Qed.

(** X20. Appending characters to a password never lowers its score and
    never adds a suggestion: the suggestions for the longer string are
    a sublist of those for the shorter one. *)
Theorem check_strength_append U password more :
  (check_strength U password).1 ≤ (check_strength U (password ++ more)).1 ∧
  sublist (check_strength U (password ++ more)).2 (check_strength U password).2.
Proof.
  assert (Hlen : len password ≤ len (password ++ more)).
  { unfold len. rewrite length_app. lia. }
  split.
  - rewrite !check_strength_score_sum, !any_app.
    pose proof (b2z_leb_mono 8 _ _ Hlen). pose proof (b2z_leb_mono 12 _ _ Hlen).
    pose proof (b2z_leb_mono 16 _ _ Hlen).
    pose proof (b2z_orb_l (any (isupper U) password) (any (isupper U) more)).
    pose proof (b2z_orb_l (any (islower U) password) (any (islower U) more)).
    pose proof (b2z_orb_l (any (isdigit U) password) (any (isdigit U) more)).
    pose proof (b2z_orb_l (any (λ c, str_in c pystring.punctuation) password)
                  (any (λ c, str_in c pystring.punctuation) more)).
    lia.
  - rewrite !check_strength_feedback, !any_app.
    repeat apply sublist_app; apply advice_sublist;
      try (by intros ->); intros H%Z.leb_le; apply Z.leb_le; lia.
Qed.
